(** * check_environment.py: the dependency checker

    A shallow embedding of the module body of [check_environment.py] and the
    properties its specification states about it.

    The script imports four packages by name, collects one message per
    package whose import raises [ImportError], and, after the loop, prints
    the messages and exits with status 1 when there is at least one.

    What lies outside the script is modelled as follows.
    - [importlib.import_module] is an oracle of the environment: a total
      function from the module name to the result of the call, which either
      returns or raises an exception.  The result of importing a name is
      taken to be the same throughout a run, whatever was imported before.
      An import that never returns is not modelled.
      What a module writes or does while it is imported is not part of the
      script and is not modelled either.
    - [print] and [sys.exit] are recorded in a log of calls; the text of
      standard output and the exit status of the process are read off the
      log and the way the module body completes. *)

From Stdlib Require Import String Ascii List ZArith Lia Bool.
Import ListNotations.
Local Open Scope string_scope.

(** * The embedding *)

(** ** Exceptions and the import oracle *)

(** The exceptions that can reach the script.  [ModuleNotFoundError] is the
    subclass of [ImportError] raised for a missing module; [SystemExit] is
    what [sys.exit] raises; [OtherException cls] stands for an exception of
    any class [cls] outside the [ImportError] hierarchy ([SyntaxError] for a
    module that does not parse, [AttributeError] or [ValueError] raised by
    the code of a module while it is loaded, ...). *)
Inductive exception : Type :=
| ImportError
| ModuleNotFoundError
| SystemExit (code : Z)
| OtherException (cls : string).

(** [isinstance(e, ImportError)]: the test made by [except ImportError]. *)
Definition isinstance_ImportError (e : exception) : bool :=
  match e with
  | ImportError | ModuleNotFoundError => true
  | SystemExit _ | OtherException _ => false
  end.

(** The result of one call of [importlib.import_module]. *)
Inductive outcome : Type :=
| Returns
| Raises (e : exception).

(** The environment the script runs in: what importing each name does. *)
Definition environment : Type := string -> outcome.

(** ** Store, log and statements *)

(** The calls the script makes to the outside, in the order it makes them. *)
Inductive event : Type :=
| CallImport (name : string)
| CallPrint (text : string)
| CallExit (code : Z).

(** The store holds the one mutable variable of the module, [bad]. *)
Record state : Type := mkState {
  bad : list string;
  log : list event
}.

(** How a statement completes. *)
Inductive completion : Type :=
| Normal
| Break
| Raised (e : exception).

Definition stmt : Type := state -> completion * state.

Definition emit (ev : event) (s : state) : state :=
  {| bad := bad s; log := log s ++ [ev] |}.

Definition pass : stmt := fun s => (Normal, s).

(** [a ; b] *)
Definition seq (a b : stmt) : stmt :=
  fun s =>
    match a s with
    | (Normal, s') => b s'
    | r => r
    end.

Notation "a ';;' b" := (seq a b) (at level 61, right associativity).

(** [if cond: body] *)
Definition if_ (cond : state -> bool) (body : stmt) : stmt :=
  fun s => if cond s then body s else (Normal, s).

(** [try: body / except ImportError: handler] *)
Definition try_except_ImportError (body handler : stmt) : stmt :=
  fun s =>
    match body s with
    | (Raised e, s') =>
        if isinstance_ImportError e then handler s' else (Raised e, s')
    | r => r
    end.

(** [for x in items: body x / else: orelse].  A [break] in the body ends the
    loop and skips the [else] clause; an exception ends the loop and
    propagates; when the items are exhausted the [else] clause runs. *)
Fixpoint for_else (items : list string) (body : string -> stmt)
         (orelse : stmt) : stmt :=
  fun s =>
    match items with
    | [] => orelse s
    | x :: rest =>
        match body x s with
        | (Normal, s') => for_else rest body orelse s'
        | (Break, s') => (Normal, s')
        | (Raised e, s') => (Raised e, s')
        end
    end.

(** [for x in items: body x], with no [else] clause. *)
Definition for_ (items : list string) (body : string -> stmt) : stmt :=
  for_else items body pass.

(** ** The calls of the script *)

(** [importlib.import_module(name)] *)
Definition importlib_import_module (env : environment) (name : string) : stmt :=
  fun s =>
    (match env name with
     | Returns => Normal
     | Raises e => Raised e
     end, emit (CallImport name) s).

(** [bad = []] *)
Definition bad_assign (v : list string) : stmt :=
  fun s => (Normal, {| bad := v; log := log s |}).

(** [bad.append(x)] *)
Definition bad_append (x : string) : stmt :=
  fun s => (Normal, {| bad := bad s ++ [x]; log := log s |}).

(** [print(e)] for an expression [e] over the store. *)
Definition print (e : state -> string) : stmt :=
  fun s => (Normal, emit (CallPrint (e s)) s).

(** [sys.exit(code)] raises [SystemExit]. *)
Definition sys_exit (code : Z) : stmt :=
  fun s => (Raised (SystemExit code), emit (CallExit code) s).

(** ** The module body *)

(** The line feed, and ['\n'.join]. *)
Definition LF : string := String "010"%char EmptyString.

Definition join (sep : string) (items : list string) : string :=
  String.concat sep items.

(** ["Can't import %s" % package] *)
Definition cant_import (package : string) : string :=
  "Can't import " ++ package.

(** [packages = ['pandas', 'IPython', 'seaborn', 'pyarrow']] *)
Definition packages : list string :=
  ["pandas"; "IPython"; "seaborn"; "pyarrow"].

(** The body of the [for] loop. *)
Definition loop_body (env : environment) (package : string) : stmt :=
  try_except_ImportError
    (importlib_import_module env package)
    (bad_append (cant_import package)).

(** The [else] clause of the loop. *)
Definition report : stmt :=
  if_ (fun s => Nat.ltb 0 (List.length (bad s)))
      (print (fun s => join LF (bad s)) ;; sys_exit 1).

(** The module body over a list of names. *)
Definition check (pkgs : list string) (env : environment) : stmt :=
  bad_assign [] ;; for_else pkgs (loop_body env) report.

Definition initial : state := {| bad := []; log := [] |}.

(** A run of the script over a list of names, and of the script itself. *)
Definition run (pkgs : list string) (env : environment) : completion * state :=
  check pkgs env initial.

Definition check_environment (env : environment) : completion * state :=
  run packages env.

(** ** What the process shows *)

(** The text written to standard output: [print] writes its argument and a
    line feed. *)
Fixpoint stdout_of (l : list event) : string :=
  match l with
  | [] => ""
  | CallPrint text :: rest => text ++ LF ++ stdout_of rest
  | _ :: rest => stdout_of rest
  end.

(** The exit status the interpreter gives the process: 0 when the module body
    runs to its end, the code of a [SystemExit], 1 for any other uncaught
    exception (whose traceback goes to standard error).  This is what the
    system reports for codes from 0 to 255 and for ordinary exceptions; a
    code outside this range (reduced modulo 256 by the system), a
    [SystemExit] that carries no code and a [KeyboardInterrupt] are not
    covered. *)
Definition status_of (c : completion) : Z :=
  match c with
  | Normal | Break => 0
  | Raised (SystemExit code) => code
  | Raised _ => 1
  end.

Definition stdout (r : completion * state) : string := stdout_of (log (snd r)).
Definition exit_status (r : completion * state) : Z := status_of (fst r).
Definition result_set (r : completion * state) : list string := bad (snd r).

(** The names whose import was attempted, in order. *)
Fixpoint imports_of (l : list event) : list string :=
  match l with
  | [] => []
  | CallImport name :: rest => name :: imports_of rest
  | _ :: rest => imports_of rest
  end.

Definition imports (r : completion * state) : list string :=
  imports_of (log (snd r)).

(** * The vocabulary of the specification *)

(** ** Names and environments *)

(** The import of [name] succeeds. *)
Definition resolves (env : environment) (name : string) : bool :=
  match env name with
  | Returns => true
  | Raises _ => false
  end.

(** The import of [name] raises an [ImportError]. *)
Definition unresolvable (env : environment) (name : string) : bool :=
  match env name with
  | Returns => false
  | Raises e => isinstance_ImportError e
  end.

(** The import of [name] raises an exception that [except ImportError] does
    not catch. *)
Definition escapes (env : environment) (name : string) : option exception :=
  match env name with
  | Returns => None
  | Raises e => if isinstance_ImportError e then None else Some e
  end.

(** The names the loop reaches: all of them up to and including the first
    whose import raises an exception that is not caught. *)
Fixpoint reached (env : environment) (pkgs : list string) : list string :=
  match pkgs with
  | [] => []
  | p :: rest =>
      match escapes env p with
      | Some _ => [p]
      | None => p :: reached env rest
      end
  end.

(** The first exception that is not caught, if any. *)
Fixpoint first_escape (env : environment) (pkgs : list string)
  : option exception :=
  match pkgs with
  | [] => None
  | p :: rest =>
      match escapes env p with
      | Some e => Some e
      | None => first_escape env rest
      end
  end.

(** The messages of the names of a list that are unresolvable. *)
Definition failures (env : environment) (pkgs : list string) : list string :=
  map cant_import (filter (unresolvable env) pkgs).

(** ** The loop and the run in closed form *)

(** The state after the loop has gone over [pkgs] from [s]. *)
Definition after_loop (env : environment) (pkgs : list string) (s : state)
  : state :=
  {| bad := bad s ++ failures env (reached env pkgs);
     log := log s ++ map CallImport (reached env pkgs) |}.

(** The run over [pkgs] in [env], in full. *)
Definition run_spec (pkgs : list string) (env : environment)
  : completion * state :=
  match first_escape env pkgs with
  | Some e =>
      (Raised e,
       {| bad := failures env (reached env pkgs);
          log := map CallImport (reached env pkgs) |})
  | None =>
      match failures env pkgs with
      | [] => (Normal, {| bad := []; log := map CallImport pkgs |})
      | b :: bs =>
          (Raised (SystemExit 1),
           {| bad := b :: bs;
              log := map CallImport pkgs
                       ++ [CallPrint (join LF (b :: bs)); CallExit 1] |})
      end
  end.

(** Every import of a name of the list returns or raises an [ImportError]:
    each name resolves or is unresolvable. *)
Definition dichotomy (env : environment) (pkgs : list string) : Prop :=
  forall p, In p pkgs -> resolves env p = true \/ unresolvable env p = true.

(** ** Lines of text *)

Definition is_LF (c : ascii) : bool := Ascii.eqb c "010"%char.

(** The string holds no line feed. *)
Fixpoint no_LF (s : string) : bool :=
  match s with
  | EmptyString => true
  | String c rest => negb (is_LF c) && no_LF rest
  end.

(** The lines of a text, each ended by a line feed (the last one may lack
    it). *)
Fixpoint lines (text : string) : list string :=
  match text with
  | EmptyString => []
  | String c rest =>
      if is_LF c then EmptyString :: lines rest
      else match lines rest with
           | [] => [String c EmptyString]
           | l :: ls => String c l :: ls
           end
  end.

(** The text made of the given lines, each followed by a line feed. *)
Fixpoint unlines (ls : list string) : string :=
  match ls with
  | [] => ""
  | l :: rest => l ++ LF ++ unlines rest
  end.

(** ** Environments to run the script in *)

(** The environment in which exactly the modules of [mods] are installed and
    sound: importing any other name raises [ModuleNotFoundError]. *)
Definition installed (mods : list string) : environment :=
  fun name =>
    if existsb (String.eqb name) mods then Returns
    else Raises ModuleNotFoundError.

(** [env] with the import of [name] doing [o] instead. *)
Definition with_import (name : string) (o : outcome) (env : environment)
  : environment :=
  fun n => if String.eqb n name then o else env n.

(** Everything is installed; [seaborn] is missing; [IPython] and [pyarrow]
    are missing; [pandas] and [seaborn] are missing; [pandas] is installed
    but its source does not parse and [seaborn] is missing. *)
Definition env_complete : environment := installed packages.
Definition env_no_seaborn : environment :=
  installed ["pandas"; "IPython"; "pyarrow"].
Definition env_B_D_missing : environment := installed ["pandas"; "seaborn"].
Definition env_A_C_missing : environment := installed ["IPython"; "pyarrow"].
Definition env_broken_pandas : environment :=
  with_import "pandas" (Raises (OtherException "SyntaxError"))
              (installed ["pandas"; "IPython"; "pyarrow"]).

(** [IPython] is missing and [seaborn] is installed but raises a
    [ValueError] while it is loaded; [pyarrow] is missing too. *)
Definition env_missing_then_broken : environment :=
  with_import "seaborn" (Raises (OtherException "ValueError"))
              (installed ["pandas"]).

(** ** Statements of the specification *)

(** C1, as the specification states it: whenever a name of the list is
    unresolvable, the run ends with exit status 1 and standard output holds
    the line of every unresolvable name, in the order of the list. *)
Definition every_unresolvable_name_reported : Prop :=
  forall (pkgs : list string) (env : environment),
    (exists p, In p pkgs /\ unresolvable env p = true) ->
    exit_status (run pkgs env) = 1%Z
    /\ stdout (run pkgs env)
       = unlines (map cant_import (filter (unresolvable env) pkgs)).

(** C3, as the specification states it: whatever fails, the import of every
    name of the list is attempted, and over four names of which the first
    and the third fail and the others resolve, the lines of the first and of
    the third are printed, in this order. *)
Definition every_name_attempted : Prop :=
  forall (pkgs : list string) (env : environment),
    imports (run pkgs env) = pkgs.

Definition first_and_third_reported : Prop :=
  forall (a b c d : string) (env : environment),
    resolves env a = false -> resolves env b = true ->
    resolves env c = false -> resolves env d = true ->
    stdout (run [a; b; c; d] env) = cant_import a ++ LF ++ cant_import c ++ LF.

Definition never_short_circuits : Prop :=
  every_name_attempted /\ first_and_third_reported.



(** ** The process *)

(** What a process is started with: the command line, the environment
    variables, and the modules that its imports find. *)
Record invocation : Type := mkInvocation {
  argv : list string;
  environ : list (string * string);
  modules : environment
}.

(** The script as a process.  The module body reads neither [sys.argv] nor
    [os.environ], and opens no file. *)
Definition main (i : invocation) : completion * state :=
  check_environment (modules i).

(** ** The loop without its [else] clause *)

(** The module body with the reporting code after the loop instead of in its
    [else] clause:
<<
    bad = []
    for package in packages:
        ...
    if len(bad) > 0:
        ...
>> *)
Definition check_sequential (pkgs : list string) (env : environment) : stmt :=
  bad_assign [] ;; for_ pkgs (loop_body env) ;; report.

Definition is_Break (c : completion) : bool :=
  match c with
  | Break => true
  | Normal | Raised _ => false
  end.

(** * Lemmas *)

(** ** The loop *)

Lemma loop_body_cases (env : environment) (p : string) (s : state) :
  loop_body env p s =
    match env p with
    | Returns => (Normal, emit (CallImport p) s)
    | Raises e =>
        if isinstance_ImportError e
        then (Normal, {| bad := bad s ++ [cant_import p];
                         log := log s ++ [CallImport p] |})
        else (Raised e, emit (CallImport p) s)
    end.
Proof.
  unfold loop_body, try_except_ImportError, importlib_import_module.
  destruct (env p) as [|e]; [reflexivity|].
  destruct (isinstance_ImportError e); reflexivity.
Qed.

Lemma for_else_loop_body (env : environment) (orelse : stmt)
      (pkgs : list string) (s : state) :
  for_else pkgs (loop_body env) orelse s =
    match first_escape env pkgs with
    | Some e => (Raised e, after_loop env pkgs s)
    | None => orelse (after_loop env pkgs s)
    end.
Proof.
  revert s; induction pkgs as [|p rest IH]; intros s.
  - cbn. unfold after_loop, failures; cbn.
    rewrite !app_nil_r. destruct s; reflexivity.
  - cbn [for_else]. rewrite loop_body_cases.
    unfold after_loop, failures.
    cbn [first_escape reached]. unfold escapes, unresolvable at 1.
    destruct (env p) as [|e] eqn:Hp.
    + rewrite IH. unfold after_loop, failures, emit. cbn [bad log filter map].
      unfold unresolvable at 3. rewrite Hp.
      rewrite <- !app_assoc. reflexivity.
    + destruct (isinstance_ImportError e) eqn:He.
      * rewrite IH. unfold after_loop, failures. cbn [bad log filter map].
        unfold unresolvable at 3. rewrite Hp, He. cbn [map].
        rewrite <- !app_assoc. reflexivity.
      * unfold emit. cbn [filter map]. unfold unresolvable. rewrite Hp, He.
        cbn [map]. rewrite app_nil_r. reflexivity.
Qed.

Lemma reached_all (env : environment) (pkgs : list string) :
  first_escape env pkgs = None -> reached env pkgs = pkgs.
Proof.
  induction pkgs as [|p rest IH]; cbn; [reflexivity|].
  destruct (escapes env p); [discriminate|].
  intros H. rewrite IH by exact H. reflexivity.
Qed.

Lemma reached_prefix (env : environment) (pkgs : list string) :
  exists rest, pkgs = (reached env pkgs ++ rest)%list.
Proof.
  induction pkgs as [|p tl [rest IH]]; cbn.
  - exists []. reflexivity.
  - destruct (escapes env p).
    + exists tl. reflexivity.
    + exists rest. cbn. rewrite <- IH. reflexivity.
Qed.

(** What the [else] clause does from a state whose log holds no more than the
    imports. *)
(** ** The run *)

Lemma report_cases (s : state) :
  report s =
    match bad s with
    | [] => (Normal, s)
    | _ :: _ =>
        (Raised (SystemExit 1),
         {| bad := bad s;
            log := log s ++ [CallPrint (join LF (bad s)); CallExit 1] |})
    end.
Proof.
  unfold report, if_, seq, print, sys_exit, emit.
  destruct s as [[|b bs] l]; cbn; [reflexivity|].
  rewrite <- app_assoc. reflexivity.
Qed.

Lemma run_eq (pkgs : list string) (env : environment) :
  run pkgs env = run_spec pkgs env.
Proof.
  unfold run, check, seq, bad_assign, run_spec. cbn [log initial].
  rewrite for_else_loop_body. unfold after_loop. cbn [bad log app].
  destruct (first_escape env pkgs) eqn:Hesc; [reflexivity|].
  rewrite (reached_all _ _ Hesc), report_cases. cbn [bad log].
  destruct (failures env pkgs); reflexivity.
Qed.

Lemma dichotomy_no_escape (env : environment) (pkgs : list string) :
  dichotomy env pkgs -> first_escape env pkgs = None.
Proof.
  induction pkgs as [|p rest IH]; intros H; cbn; [reflexivity|].
  assert (Hp : escapes env p = None).
  { destruct (H p (or_introl eq_refl)) as [Hr|Hu];
      unfold resolves, unresolvable, escapes in *;
      destruct (env p) as [|e]; try discriminate; try reflexivity.
    rewrite Hu. reflexivity. }
  rewrite Hp. apply IH. intros q Hq. apply H. right. exact Hq.
Qed.

Lemma failures_nil_iff (env : environment) (pkgs : list string) :
  failures env pkgs = [] <->
  forall p, In p pkgs -> unresolvable env p = false.
Proof.
  unfold failures. split.
  - intros H p Hp. destruct (unresolvable env p) eqn:Hu; [|reflexivity].
    assert (Hin : In p (filter (unresolvable env) pkgs))
      by (apply filter_In; split; assumption).
    destruct (filter (unresolvable env) pkgs); [contradiction|discriminate].
  - intros H. induction pkgs as [|p rest IH]; [reflexivity|].
    cbn. rewrite (H p (or_introl eq_refl)). apply IH.
    intros q Hq. apply H. right. exact Hq.
Qed.

Lemma resolves_not_unresolvable (env : environment) (p : string) :
  resolves env p = true -> unresolvable env p = false.
Proof.
  unfold resolves, unresolvable. destruct (env p); [reflexivity|discriminate].
Qed.

(** ** Lines of text *)

Lemma append_assoc (a b c : string) : (a ++ b) ++ c = a ++ (b ++ c).
Proof. induction a as [|x a IH]; cbn; [reflexivity|]. rewrite IH. reflexivity. Qed.

Lemma join_LF_unlines (l : string) (ls : list string) :
  join LF (l :: ls) ++ LF = unlines (l :: ls).
Proof.
  revert l; induction ls as [|m ms IH]; intros l.
  - reflexivity.
  - change (join LF (l :: m :: ms)) with (l ++ LF ++ join LF (m :: ms)).
    rewrite !append_assoc, IH. reflexivity.
Qed.

Lemma lines_line (l rest : string) :
  no_LF l = true -> lines (l ++ LF ++ rest) = l :: lines rest.
Proof.
  induction l as [|c l IH]; intros H; [reflexivity|].
  cbn [no_LF] in H. apply andb_true_iff in H as [Hc Hl].
  apply negb_true_iff in Hc.
  change (String c l ++ LF ++ rest) with (String c (l ++ LF ++ rest)).
  cbn [lines]. rewrite Hc, (IH Hl). reflexivity.
Qed.

Lemma lines_unlines (ls : list string) :
  Forall (fun l => no_LF l = true) ls -> lines (unlines ls) = ls.
Proof.
  induction 1 as [|l ls Hl _ IH]; cbn [unlines]; [reflexivity|].
  rewrite (lines_line _ _ Hl), IH. reflexivity.
Qed.

Lemma no_LF_app (a b : string) :
  no_LF (a ++ b) = no_LF a && no_LF b.
Proof.
  induction a as [|c a IH]; cbn; [reflexivity|].
  rewrite IH, andb_assoc. reflexivity.
Qed.

Lemma no_LF_cant_import (p : string) :
  no_LF p = true -> no_LF (cant_import p) = true.
Proof. intros H. unfold cant_import. rewrite no_LF_app, H. reflexivity. Qed.

Lemma cant_import_inj (p q : string) :
  cant_import p = cant_import q -> p = q.
Proof. unfold cant_import. cbn. intros H. injection H. trivial. Qed.

(** ** Reading the log *)

Lemma stdout_of_imports (names : list string) (rest : list event) :
  stdout_of (map CallImport names ++ rest) = stdout_of rest.
Proof. induction names as [|n names IH]; cbn; [reflexivity|exact IH]. Qed.

Lemma imports_of_imports (names : list string) (rest : list event) :
  imports_of (map CallImport names ++ rest) = (names ++ imports_of rest)%list.
Proof.
  induction names as [|n names IH]; cbn; [reflexivity|].
  rewrite IH. reflexivity.
Qed.

Lemma stdout_no_print (names : list string) :
  stdout_of (map CallImport names) = "".
Proof.
  rewrite <- (app_nil_r (map CallImport names)). apply stdout_of_imports.
Qed.

Lemma imports_no_print (names : list string) :
  imports_of (map CallImport names) = names.
Proof.
  rewrite <- (app_nil_r (map CallImport names)), imports_of_imports.
  apply app_nil_r.
Qed.

(** ** Runs in which no exception escapes *)

(** The run when no exception escapes the loop. *)
Lemma run_no_escape (pkgs : list string) (env : environment) :
  first_escape env pkgs = None ->
  run pkgs env =
    match failures env pkgs with
    | [] => (Normal, {| bad := []; log := map CallImport pkgs |})
    | b :: bs =>
        (Raised (SystemExit 1),
         {| bad := b :: bs;
            log := map CallImport pkgs
                     ++ [CallPrint (join LF (b :: bs)); CallExit 1] |})
    end.
Proof. intros H. rewrite run_eq. unfold run_spec. rewrite H. reflexivity. Qed.

Lemma failures_cons_of_unresolvable (env : environment) (pkgs : list string) :
  (exists p, In p pkgs /\ unresolvable env p = true) ->
  exists b bs, failures env pkgs = b :: bs.
Proof.
  intros [p [Hin Hu]].
  destruct (failures env pkgs) as [|b bs] eqn:Hf; [|eauto].
  rewrite (proj1 (failures_nil_iff env pkgs) Hf p Hin) in Hu. discriminate.
Qed.

Lemma installed_dichotomy (mods pkgs : list string) :
  dichotomy (installed mods) pkgs.
Proof.
  intros p _. unfold resolves, unresolvable, installed.
  destruct (existsb (String.eqb p) mods); [left|right]; reflexivity.
Qed.

(** * The properties *)

(** C1 fails where an import raises an exception that is not an
    [ImportError]: with [IPython] and [pyarrow] missing and a [seaborn] that
    raises [ValueError] while it is loaded, two names of the list are
    unresolvable, yet the run ends at the import of [seaborn] and nothing is
    written to standard output. *)
Lemma unresolvable_name_not_reported :
  unresolvable env_missing_then_broken "IPython" = true
  /\ fst (check_environment env_missing_then_broken)
     = Raised (OtherException "ValueError")
  /\ stdout (check_environment env_missing_then_broken) = ""
  /\ ~ every_unresolvable_name_reported.
Proof.
  split; [reflexivity|]. split; [reflexivity|]. split; [reflexivity|].
  intros H.
  destruct (H packages env_missing_then_broken) as [_ Hout].
  - exists "IPython". split; [cbn; tauto|reflexivity].
  - discriminate Hout.
Qed.

(** C1, amended.  For every list of names of which each resolves or is
    unresolvable (its import returns or raises an [ImportError])
    and at least one is unresolvable, the run ends with exit status 1 and
    standard output holds exactly one line per unresolvable name, in the
    order of the list, each line being ["Can't import <name>"]: the text is
    these lines each followed by a line feed, and, when no name holds a line
    feed, cutting the text at its line feeds gives these lines back. *)
Theorem unresolvable_names_reported (pkgs : list string) (env : environment) :
  dichotomy env pkgs ->
  (exists p, In p pkgs /\ unresolvable env p = true) ->
  fst (run pkgs env) = Raised (SystemExit 1)
  /\ exit_status (run pkgs env) = 1%Z
  /\ stdout (run pkgs env)
     = unlines (map cant_import (filter (unresolvable env) pkgs))
  /\ (Forall (fun p => no_LF p = true) pkgs ->
      lines (stdout (run pkgs env))
      = map cant_import (filter (unresolvable env) pkgs)).
Proof.
  intros Hd Hex.
  rewrite (run_no_escape _ _ (dichotomy_no_escape _ _ Hd)).
  destruct (failures_cons_of_unresolvable _ _ Hex) as [b [bs Hf]].
  rewrite Hf. unfold stdout, exit_status. cbn [fst snd log status_of].
  rewrite stdout_of_imports. cbn [stdout_of].
  assert (Hout : join LF (b :: bs) ++ LF ++ ""
                 = unlines (map cant_import (filter (unresolvable env) pkgs))).
  { change (LF ++ "") with LF. rewrite join_LF_unlines, <- Hf. reflexivity. }
  rewrite Hout. repeat split.
  intros Hlf. apply lines_unlines.
  apply Forall_forall. intros l Hl. apply in_map_iff in Hl as [p [<- Hp]].
  apply filter_In in Hp as [Hp _].
  apply no_LF_cant_import. exact (proj1 (Forall_forall _ _) Hlf p Hp).
Qed.

Lemma unresolvable_names_reported_witness :
  dichotomy env_B_D_missing packages
  /\ (exists p, In p packages /\ unresolvable env_B_D_missing p = true)
  /\ exit_status (run packages env_B_D_missing) = 1%Z
  /\ stdout (run packages env_B_D_missing)
     = "Can't import IPython" ++ LF ++ "Can't import pyarrow" ++ LF
  /\ lines (stdout (run packages env_B_D_missing))
     = ["Can't import IPython"; "Can't import pyarrow"].
Proof.
  assert (Hd : dichotomy env_B_D_missing packages)
    by apply installed_dichotomy.
  assert (Hex : exists p, In p packages /\ unresolvable env_B_D_missing p = true).
  { exists "IPython". split; [cbn; tauto | reflexivity]. }
  destruct (unresolvable_names_reported packages env_B_D_missing Hd Hex)
    as [_ [Hs [Ho Hl]]].
  split; [exact Hd|]. split; [exact Hex|]. split; [exact Hs|].
  split; [exact Ho|]. apply Hl. repeat constructor.
Defined.

(** C2.  For every list of names that all resolve, the run ends with exit
    status 0 and nothing is written to standard output. *)
Theorem all_resolved_silent (pkgs : list string) (env : environment) :
  (forall p, In p pkgs -> resolves env p = true) ->
  fst (run pkgs env) = Normal
  /\ exit_status (run pkgs env) = 0%Z
  /\ stdout (run pkgs env) = "".
Proof.
  intros H.
  assert (Hd : dichotomy env pkgs) by (intros p Hp; left; apply H; exact Hp).
  rewrite (run_no_escape _ _ (dichotomy_no_escape _ _ Hd)).
  assert (Hf : failures env pkgs = []).
  { apply failures_nil_iff. intros p Hp.
    apply resolves_not_unresolvable, H, Hp. }
  rewrite Hf. unfold stdout, exit_status. cbn [fst snd log status_of].
  rewrite stdout_no_print. repeat split.
Qed.

Lemma all_resolved_silent_witness :
  (forall p, In p packages -> resolves env_complete p = true)
  /\ exit_status (check_environment env_complete) = 0%Z
  /\ stdout (check_environment env_complete) = "".
Proof.
  assert (H : forall p, In p packages -> resolves env_complete p = true).
  { intros p Hp. cbn in Hp.
    destruct Hp as [<-|[<-|[<-|[<-|[]]]]]; reflexivity. }
  split; [exact H|].
  exact (proj2 (all_resolved_silent packages env_complete H)).
Defined.

Lemma imports_run (pkgs : list string) (env : environment) :
  imports (run pkgs env) = reached env pkgs.
Proof.
  rewrite run_eq. unfold run_spec, imports.
  destruct (first_escape env pkgs) eqn:Hesc; cbn [snd log].
  - apply imports_no_print.
  - rewrite (reached_all _ _ Hesc).
    destruct (failures env pkgs); cbn [snd log].
    + apply imports_no_print.
    + rewrite imports_of_imports. apply app_nil_r.
Qed.

Lemma result_set_run (pkgs : list string) (env : environment) :
  result_set (run pkgs env) = failures env (reached env pkgs).
Proof.
  rewrite run_eq. unfold run_spec, result_set.
  destruct (first_escape env pkgs) eqn:Hesc; cbn [snd bad]; [reflexivity|].
  rewrite (reached_all _ _ Hesc).
  destruct (failures env pkgs) eqn:Hf; reflexivity.
Qed.

(** C3 fails where an import raises an exception that is not an
    [ImportError]: with a [pandas] whose source does not parse and no
    [seaborn], the names at positions 1 and 3 fail and those at positions 2
    and 4 resolve, yet the loop stops at [pandas]: no other import is
    attempted and no line is printed. *)
Lemma broken_module_short_circuits :
  (resolves env_broken_pandas "pandas" = false
   /\ resolves env_broken_pandas "IPython" = true
   /\ resolves env_broken_pandas "seaborn" = false
   /\ resolves env_broken_pandas "pyarrow" = true)
  /\ imports (check_environment env_broken_pandas) = ["pandas"]
  /\ stdout (check_environment env_broken_pandas) = ""
  /\ ~ every_name_attempted
  /\ ~ first_and_third_reported
  /\ ~ never_short_circuits.
Proof.
  assert (H1 : ~ every_name_attempted).
  { intros H. discriminate (H packages env_broken_pandas). }
  assert (H2 : ~ first_and_third_reported).
  { intros H.
    discriminate (H "pandas" "IPython" "seaborn" "pyarrow" env_broken_pandas
                    eq_refl eq_refl eq_refl eq_refl). }
  split; [repeat split|]. split; [reflexivity|]. split; [reflexivity|].
  split; [exact H1|]. split; [exact H2|].
  intros [H _]. exact (H1 H).
Qed.

(** C3, amended.  The loop never stops at an [ImportError]: for every list of
    names of which each resolves or is unresolvable (its import returns or
    raises an [ImportError]), the import of every name of the list is
    attempted, in order, and the result set holds the message of every
    unresolvable name; in particular, when the names at positions 1 and 3 of
    a list of four fail and those at positions 2 and 4 resolve, both failure
    lines are printed, that of position 1 first. *)
Theorem no_short_circuit (pkgs : list string) (env : environment) :
  dichotomy env pkgs ->
  imports (run pkgs env) = pkgs
  /\ result_set (run pkgs env)
     = map cant_import (filter (unresolvable env) pkgs)
  /\ (forall a b c d,
        pkgs = [a; b; c; d] ->
        unresolvable env a = true -> resolves env b = true ->
        unresolvable env c = true -> resolves env d = true ->
        result_set (run pkgs env) = [cant_import a; cant_import c]
        /\ stdout (run pkgs env)
           = cant_import a ++ LF ++ cant_import c ++ LF).
Proof.
  intros Hd. pose proof (dichotomy_no_escape _ _ Hd) as Hesc.
  rewrite imports_run, result_set_run, (reached_all _ _ Hesc).
  split; [reflexivity|]. split; [reflexivity|].
  intros a b c d -> Ha Hb Hc Hd'.
  apply resolves_not_unresolvable in Hb, Hd'.
  rewrite (run_no_escape _ _ Hesc).
  unfold failures, stdout. cbn [filter]. rewrite Ha, Hb, Hc, Hd'.
  split; [reflexivity|].
  change (map cant_import [a; c]) with [cant_import a; cant_import c].
  cbv iota. cbn [snd log]. rewrite stdout_of_imports. cbn [stdout_of].
  change (LF ++ "") with LF. rewrite join_LF_unlines. reflexivity.
Qed.

Lemma no_short_circuit_witness :
  dichotomy env_A_C_missing packages
  /\ imports (check_environment env_A_C_missing) = packages
  /\ result_set (check_environment env_A_C_missing)
     = ["Can't import pandas"; "Can't import seaborn"]
  /\ stdout (check_environment env_A_C_missing)
     = "Can't import pandas" ++ LF ++ "Can't import seaborn" ++ LF.
Proof.
  assert (Hd : dichotomy env_A_C_missing packages)
    by apply installed_dichotomy.
  destruct (no_short_circuit packages env_A_C_missing Hd) as [Hi [_ H4]].
  destruct (H4 "pandas" "IPython" "seaborn" "pyarrow"
               eq_refl eq_refl eq_refl eq_refl eq_refl) as [Hr Ho].
  split; [exact Hd|]. split; [exact Hi|]. split; [exact Hr|exact Ho].
Defined.




Lemma for_else_ext (body1 body2 : string -> stmt) (orelse : stmt)
      (items : list string) :
  (forall x, In x items -> forall s, body1 x s = body2 x s) ->
  forall s, for_else items body1 orelse s = for_else items body2 orelse s.
Proof.
  induction items as [|x rest IH]; intros H s; [reflexivity|].
  cbn [for_else]. rewrite (H x (or_introl eq_refl) s).
  destruct (body2 x s) as [[| |e] s']; try reflexivity.
  apply IH. intros y Hy. apply H. right. exact Hy.
Qed.

(** C5.  Two runs in which the import of every name of the list has the same
    result give the same standard output and the same exit status (and make
    the same calls in the same order). *)
Theorem rerun_same_result (pkgs : list string) (env1 env2 : environment) :
  (forall p, In p pkgs -> env1 p = env2 p) ->
  stdout (run pkgs env1) = stdout (run pkgs env2)
  /\ exit_status (run pkgs env1) = exit_status (run pkgs env2)
  /\ run pkgs env1 = run pkgs env2.
Proof.
  intros H.
  assert (Heq : run pkgs env1 = run pkgs env2).
  { unfold run, check, seq, bad_assign. apply for_else_ext.
    intros p Hp s. rewrite !loop_body_cases, (H p Hp). reflexivity. }
  rewrite Heq. repeat split.
Qed.

(** The second run finds [sys], [importlib] and whatever else the first one
    left in memory, and nothing more or less installed. *)
Lemma rerun_same_result_witness :
  (forall p, In p packages ->
             env_no_seaborn p = with_import "sys" Returns env_no_seaborn p)
  /\ stdout (run packages env_no_seaborn)
     = stdout (run packages (with_import "sys" Returns env_no_seaborn))
  /\ exit_status (run packages env_no_seaborn)
     = exit_status (run packages (with_import "sys" Returns env_no_seaborn)).
Proof.
  assert (H : forall p, In p packages ->
              env_no_seaborn p = with_import "sys" Returns env_no_seaborn p).
  { intros p Hp. cbn in Hp.
    destruct Hp as [<-|[<-|[<-|[<-|[]]]]]; reflexivity. }
  destruct (rerun_same_result packages env_no_seaborn
              (with_import "sys" Returns env_no_seaborn) H) as [Ho [Hs _]].
  split; [exact H|]. split; [exact Ho|exact Hs].
Defined.

(** C6.  The list of names is the literal of four names, ["pandas"],
    ["IPython"], ["seaborn"], ["pyarrow"], in this order, and neither the
    command line nor the environment variables change it: the names a run
    imports are those of the literal, in order, up to the first import that
    raises an exception which is not caught, and two processes that differ
    only in command line and environment variables run alike. *)
Theorem packages_fixed :
  packages = ["pandas"; "IPython"; "seaborn"; "pyarrow"]
  /\ List.length packages = 4
  /\ (forall i, imports (main i) = reached (modules i) packages)
  /\ (forall i, exists rest, packages = (imports (main i) ++ rest)%list)
  /\ (forall args vars args' vars' mods,
        main {| argv := args; environ := vars; modules := mods |}
        = main {| argv := args'; environ := vars'; modules := mods |}).
Proof.
  split; [reflexivity|]. split; [reflexivity|].
  split; [|split].
  - intros i. apply imports_run.
  - intros i. unfold main, check_environment. rewrite imports_run.
    apply reached_prefix.
  - reflexivity.
Qed.

(** C7.  Over the empty list the run writes nothing and ends with exit status
    0, whatever the environment. *)
Theorem empty_list_silent (env : environment) :
  run [] env = (Normal, initial)
  /\ stdout (run [] env) = ""
  /\ exit_status (run [] env) = 0%Z.
Proof. repeat split. Qed.

Lemma for_else_no_break (body : string -> stmt) (orelse : stmt)
      (items : list string) :
  (forall x s, is_Break (fst (body x s)) = false) ->
  forall s, for_else items body orelse s = (for_ items body ;; orelse) s.
Proof.
  intros Hb. unfold for_, seq.
  induction items as [|x rest IH]; intros s; [reflexivity|].
  cbn [for_else]. specialize (Hb x s).
  destruct (body x s) as [[| |e] s']; cbn in Hb;
    [apply IH | discriminate | reflexivity].
Qed.

(** A loop that does [break] tells the two apart: the [else] clause is
    skipped, the code after the loop is not. *)
Example for_else_break :
  for_else ["x"] (fun _ s => (Break, s)) (bad_append "e") initial
  = (Normal, initial)
  /\ (for_ ["x"] (fun _ s => (Break, s)) ;; bad_append "e") initial
     = (Normal, {| bad := ["e"]; log := [] |}).
Proof. split; reflexivity. Qed.

Lemma loop_body_no_break (env : environment) (p : string) (s : state) :
  is_Break (fst (loop_body env p s)) = false.
Proof.
  rewrite loop_body_cases. destruct (env p) as [|e]; [reflexivity|].
  destruct (isinstance_ImportError e); reflexivity.
Qed.

(** C8.  The loop body never does [break], so the [else] clause of the loop
    runs whenever the loop ends, as code placed after the loop would: for
    every environment the script behaves as the same loop followed by the
    reporting code. *)
Theorem loop_else_is_sequential (env : environment) :
  (forall p s, is_Break (fst (loop_body env p s)) = false)
  /\ (forall pkgs orelse s,
        for_else pkgs (loop_body env) orelse s
        = (for_ pkgs (loop_body env) ;; orelse) s)
  /\ (forall s, check packages env s = check_sequential packages env s)
  /\ check_environment env = check_sequential packages env initial.
Proof.
  assert (H : forall pkgs orelse s,
             for_else pkgs (loop_body env) orelse s
             = (for_ pkgs (loop_body env) ;; orelse) s).
  { intros pkgs orelse s. apply for_else_no_break.
    intros x s'. apply loop_body_no_break. }
  assert (Hc : forall s, check packages env s = check_sequential packages env s).
  { intros s. unfold check, check_sequential, seq at 1 3, bad_assign.
    apply H. }
  split; [intros p s; apply loop_body_no_break|].
  split; [exact H|]. split; [exact Hc|]. apply Hc.
Qed.





Lemma NoDup_prefix (A : Type) (l l1 l2 : list A) :
  l = (l1 ++ l2)%list -> NoDup l -> NoDup l1.
Proof. intros -> H. exact (NoDup_app_remove_r _ _ H). Qed.

Lemma NoDup_failures (env : environment) (names : list string) :
  NoDup names -> NoDup (failures env names).
Proof.
  intros H. unfold failures.
  assert (Hf : NoDup (filter (unresolvable env) names))
    by (apply NoDup_filter; exact H).
  induction Hf as [|x l Hx _ IH]; cbn; constructor; [|exact IH].
  intros Hin. apply in_map_iff in Hin as [y [Hy Hin]].
  apply cant_import_inj in Hy. subst y. contradiction.
Qed.

Lemma failures_length (env : environment) (names : list string) :
  List.length (failures env names) <= List.length names.
Proof. unfold failures. rewrite length_map. apply filter_length_le. Qed.

(** C10.  In every run the result set has at most as many messages as the
    list has names (at most 4 for the script): it holds, in order, the
    message of each name whose import was attempted and raised an
    [ImportError], the names attempted being a prefix of the list; what is
    printed, if anything, is the result set, a line each; and over a list
    without repetition (as that of the script) no message comes twice. *)
Theorem result_set_bounded (env : environment) :
  (forall pkgs,
     List.length (result_set (run pkgs env)) <= List.length pkgs
     /\ (exists rest, pkgs = (imports (run pkgs env) ++ rest)%list)
     /\ result_set (run pkgs env)
        = map cant_import
              (filter (unresolvable env) (imports (run pkgs env)))
     /\ (stdout (run pkgs env) = ""
         \/ stdout (run pkgs env) = unlines (result_set (run pkgs env)))
     /\ (NoDup pkgs -> NoDup (result_set (run pkgs env))))
  /\ List.length (result_set (check_environment env)) <= 4
  /\ NoDup (result_set (check_environment env)).
Proof.
  assert (Hgen : forall pkgs,
     List.length (result_set (run pkgs env)) <= List.length pkgs
     /\ (exists rest, pkgs = (imports (run pkgs env) ++ rest)%list)
     /\ result_set (run pkgs env)
        = map cant_import
              (filter (unresolvable env) (imports (run pkgs env)))
     /\ (stdout (run pkgs env) = ""
         \/ stdout (run pkgs env) = unlines (result_set (run pkgs env)))
     /\ (NoDup pkgs -> NoDup (result_set (run pkgs env)))).
  { intros pkgs. rewrite imports_run, result_set_run.
    destruct (reached_prefix env pkgs) as [rest Hrest].
    split; [|split; [|split; [|split]]].
    - rewrite Hrest at 2. rewrite length_app.
      pose proof (failures_length env (reached env pkgs)). lia.
    - exists rest. exact Hrest.
    - reflexivity.
    - rewrite run_eq. unfold run_spec, stdout.
      destruct (first_escape env pkgs) eqn:Hesc; cbn [snd log].
      + left. apply stdout_no_print.
      + rewrite (reached_all _ _ Hesc).
        destruct (failures env pkgs) as [|b bs] eqn:Hf; cbn [snd log].
        * left. apply stdout_no_print.
        * right. rewrite stdout_of_imports. cbn [stdout_of].
          change (LF ++ "") with LF. apply join_LF_unlines.
    - intros Hnd. apply NoDup_failures. exact (NoDup_prefix _ _ _ _ Hrest Hnd). }
  split; [exact Hgen|].
  destruct (Hgen packages) as [Hlen [_ [_ [_ Hnd]]]].
  split; [exact Hlen|]. apply Hnd.
  repeat constructor; cbn; intuition discriminate.
Qed.

Lemma result_set_bounded_witness :
  NoDup packages
  /\ NoDup (result_set (run packages env_B_D_missing))
  /\ List.length (result_set (check_environment env_B_D_missing)) <= 4.
Proof.
  destruct (result_set_bounded env_B_D_missing) as [Hgen [Hlen _]].
  destruct (Hgen packages) as [_ [_ [_ [_ Hnd]]]].
  assert (H : NoDup packages)
    by (repeat constructor; cbn; intuition discriminate).
  split; [exact H|]. split; [exact (Hnd H)|exact Hlen].
Defined.


(** * Further properties of the script *)

(** ** Helpers *)

Lemma escapes_none_iff (env : environment) (p : string) :
  escapes env p = None <->
  resolves env p = true \/ unresolvable env p = true.
Proof.
  unfold escapes, resolves, unresolvable.
  destruct (env p) as [|e]; [tauto|].
  destruct (isinstance_ImportError e); split; intros H;
    try tauto; try discriminate; destruct H; discriminate.
Qed.

Lemma first_escape_none_iff (env : environment) (pkgs : list string) :
  first_escape env pkgs = None <->
  forall p, In p pkgs -> escapes env p = None.
Proof.
  induction pkgs as [|q rest IH]; cbn.
  - split; [intros _ p []|reflexivity].
  - destruct (escapes env q) eqn:Hq.
    + split; [discriminate|]. intros H.
      rewrite <- Hq. apply H. left; reflexivity.
    + rewrite IH. split.
      * intros H p [<-|Hp]; [exact Hq|apply H, Hp].
      * intros H p Hp. apply H. right; exact Hp.
Qed.

Lemma no_escape_dichotomy (env : environment) (pkgs : list string) :
  first_escape env pkgs = None <-> dichotomy env pkgs.
Proof.
  rewrite first_escape_none_iff. unfold dichotomy.
  split; intros H p Hp; apply escapes_none_iff, H, Hp.
Qed.

Lemma escapes_not_unresolvable (env : environment) (p : string)
      (e : exception) :
  escapes env p = Some e -> unresolvable env p = false.
Proof.
  unfold escapes, unresolvable. destruct (env p) as [|e']; [discriminate|].
  destruct (isinstance_ImportError e'); [discriminate|reflexivity].
Qed.

Lemma failures_app (env : environment) (l1 l2 : list string) :
  failures env (l1 ++ l2) = (failures env l1 ++ failures env l2)%list.
Proof. unfold failures. rewrite filter_app, map_app. reflexivity. Qed.

Lemma line_not_empty (x : string) : x ++ LF <> "".
Proof. destruct x; discriminate. Qed.

Lemma exit_status_run_no_escape (pkgs : list string) (env : environment) :
  first_escape env pkgs = None ->
  exit_status (run pkgs env)
  = match failures env pkgs with [] => 0%Z | _ :: _ => 1%Z end.
Proof.
  intros H. rewrite (run_no_escape _ _ H).
  destruct (failures env pkgs); reflexivity.
Qed.

Lemma reached_until_escape (env : environment) (pre post : list string)
      (p : string) (e : exception) :
  (forall q, In q pre -> escapes env q = None) ->
  escapes env p = Some e ->
  reached env (pre ++ p :: post) = (pre ++ [p])%list
  /\ first_escape env (pre ++ p :: post) = Some e.
Proof.
  intros Hpre Hp. induction pre as [|q pre IH]; cbn.
  - rewrite Hp. split; reflexivity.
  - rewrite (Hpre q (or_introl eq_refl)).
    destruct IH as [IH1 IH2]; [intros r Hr; apply Hpre; right; exact Hr|].
    rewrite IH1, IH2. split; reflexivity.
Qed.

(** ** When the module body runs to its end *)

(** X1.  The module body runs to its end, without [sys.exit] and without an
    exception, exactly when the import of every name of the list returns. *)
Theorem normal_end_iff_all_imported (pkgs : list string) (env : environment) :
  fst (run pkgs env) = Normal <->
  forall p, In p pkgs -> resolves env p = true.
Proof.
  split.
  - rewrite run_eq. unfold run_spec.
    destruct (first_escape env pkgs) eqn:Hesc; [discriminate|].
    destruct (failures env pkgs) eqn:Hf; [|discriminate].
    intros _ p Hp.
    pose proof (proj1 (first_escape_none_iff env pkgs) Hesc p Hp) as He.
    pose proof (proj1 (failures_nil_iff env pkgs) Hf p Hp) as Hu.
    apply escapes_none_iff in He as [Hr|Hu']; [exact Hr|].
    rewrite Hu in Hu'. discriminate.
  - intros H.
    assert (Hesc : first_escape env pkgs = None).
    { apply first_escape_none_iff. intros p Hp.
      apply escapes_none_iff. left. apply H, Hp. }
    rewrite (run_no_escape _ _ Hesc).
    assert (Hf : failures env pkgs = []).
    { apply failures_nil_iff. intros p Hp.
      apply resolves_not_unresolvable, H, Hp. }
    rewrite Hf. reflexivity.
Qed.

Lemma normal_end_iff_all_imported_witness :
  fst (check_environment env_complete) = Normal
  /\ forall p, In p packages -> resolves env_complete p = true.
Proof.
  assert (H : fst (check_environment env_complete) = Normal) by reflexivity.
  split; [exact H|].
  exact (proj1 (normal_end_iff_all_imported packages env_complete) H).
Defined.

(** ** An exception that is not caught *)

(** X2.  When the import of a name raises an exception that is not an
    [ImportError] and no earlier import did, the run ends there with that
    exception: the names after it are not imported, nothing is printed, also
    not the messages collected for the earlier names, and the exit status is
    that of the uncaught exception. *)
Theorem uncaught_exception_ends_run (pre post : list string) (p : string)
        (e : exception) (env : environment) :
  (forall q, In q pre -> escapes env q = None) ->
  escapes env p = Some e ->
  fst (run (pre ++ p :: post) env) = Raised e
  /\ imports (run (pre ++ p :: post) env) = (pre ++ [p])%list
  /\ result_set (run (pre ++ p :: post) env) = failures env pre
  /\ stdout (run (pre ++ p :: post) env) = ""
  /\ exit_status (run (pre ++ p :: post) env) = status_of (Raised e).
Proof.
  intros Hpre Hp.
  destruct (reached_until_escape env pre post p e Hpre Hp) as [Hr He].
  rewrite imports_run, result_set_run, Hr.
  rewrite run_eq. unfold run_spec, stdout, exit_status. rewrite He, Hr.
  cbn [fst snd log]. rewrite stdout_no_print.
  split; [reflexivity|]. split; [reflexivity|].
  split; [|split; reflexivity].
  rewrite failures_app. unfold failures at 2. cbn [filter].
  rewrite (escapes_not_unresolvable _ _ _ Hp). apply app_nil_r.
Qed.

Lemma uncaught_exception_ends_run_witness :
  fst (check_environment env_missing_then_broken)
  = Raised (OtherException "ValueError")
  /\ imports (check_environment env_missing_then_broken)
     = ["pandas"; "IPython"; "seaborn"]
  /\ result_set (check_environment env_missing_then_broken)
     = ["Can't import IPython"]
  /\ stdout (check_environment env_missing_then_broken) = ""
  /\ exit_status (check_environment env_missing_then_broken) = 1%Z.
Proof.
  assert (Hpre : forall q, In q ["pandas"; "IPython"] ->
                           escapes env_missing_then_broken q = None).
  { intros q [<-|[<-|[]]]; reflexivity. }
  exact (uncaught_exception_ends_run
           ["pandas"; "IPython"] ["pyarrow"] "seaborn"
           (OtherException "ValueError") env_missing_then_broken
           Hpre eq_refl).
Defined.

(** ** When a report is printed *)

(** X3.  Something is written to standard output exactly when no import
    raised an exception that is not caught and at least one raised an
    [ImportError]; and whenever something is written, the exit status is 1,
    in every environment. *)
Theorem report_printed_iff (pkgs : list string) (env : environment) :
  (stdout (run pkgs env) <> "" <->
   first_escape env pkgs = None
   /\ exists p, In p pkgs /\ unresolvable env p = true)
  /\ (stdout (run pkgs env) <> "" -> exit_status (run pkgs env) = 1%Z).
Proof.
  rewrite run_eq. unfold run_spec, stdout, exit_status.
  destruct (first_escape env pkgs) as [e|] eqn:Hesc; cbn [fst snd log].
  - rewrite stdout_no_print. split; [split|]; try tauto.
    intros [H _]. discriminate.
  - destruct (failures env pkgs) as [|b bs] eqn:Hf; cbn [fst snd log].
    + rewrite stdout_no_print. split; [split|]; try tauto.
      intros [_ [p [Hp Hu]]].
      rewrite (proj1 (failures_nil_iff env pkgs) Hf p Hp) in Hu.
      discriminate.
    + rewrite stdout_of_imports. cbn [stdout_of status_of].
      change (LF ++ "") with LF.
      split; [split|]; try reflexivity.
      * intros _. split; [reflexivity|].
        assert (Hin : In b (failures env pkgs)) by (rewrite Hf; left; reflexivity).
        unfold failures in Hin. apply in_map_iff in Hin as [p [_ Hp]].
        apply filter_In in Hp. exists p. exact Hp.
      * intros _. apply line_not_empty.
Qed.

Lemma report_printed_iff_witness :
  stdout (check_environment env_no_seaborn) <> ""
  /\ exit_status (check_environment env_no_seaborn) = 1%Z.
Proof.
  assert (H : stdout (check_environment env_no_seaborn) <> "").
  { apply (proj1 (report_printed_iff packages env_no_seaborn)).
    split; [reflexivity|]. exists "seaborn".
    split; [cbn; tauto|reflexivity]. }
  split; [exact H|].
  exact (proj2 (report_printed_iff packages env_no_seaborn) H).
Defined.

(** ** A better environment *)

Lemma filter_incl_length (f g : string -> bool) (l : list string) :
  (forall x, In x l -> f x = true -> g x = true) ->
  incl (filter f l) (filter g l)
  /\ List.length (filter f l) <= List.length (filter g l).
Proof.
  intros H. split.
  - intros x Hx. apply filter_In in Hx as [Hin Hf].
    apply filter_In. split; [exact Hin|apply H; assumption].
  - induction l as [|x l IH]; cbn; [lia|].
    assert (IH' : List.length (filter f l) <= List.length (filter g l))
      by (apply IH; intros y Hy; apply H; right; exact Hy).
    destruct (f x) eqn:Hf.
    + rewrite (H x (or_introl eq_refl) Hf). cbn. lia.
    + destruct (g x); cbn; lia.
Qed.

(** X6.  Installing modules never adds to the report: when in both
    environments each import returns or raises an [ImportError], and every
    name that resolves in the first resolves in the second, each message of
    the second run is a message of the first, there are no more of them, and
    the exit status is no larger. *)
Theorem more_installed_fewer_reported (pkgs : list string)
        (env1 env2 : environment) :
  dichotomy env1 pkgs -> dichotomy env2 pkgs ->
  (forall p, In p pkgs -> resolves env1 p = true -> resolves env2 p = true) ->
  incl (result_set (run pkgs env2)) (result_set (run pkgs env1))
  /\ List.length (result_set (run pkgs env2))
     <= List.length (result_set (run pkgs env1))
  /\ (exit_status (run pkgs env2) <= exit_status (run pkgs env1))%Z.
Proof.
  intros Hd1 Hd2 Hmono.
  assert (H1 : first_escape env1 pkgs = None) by (apply no_escape_dichotomy, Hd1).
  assert (H2 : first_escape env2 pkgs = None) by (apply no_escape_dichotomy, Hd2).
  assert (Himp : forall p, In p pkgs -> unresolvable env2 p = true ->
                           unresolvable env1 p = true).
  { intros p Hp Hu2. destruct (Hd1 p Hp) as [Hr1|Hu1]; [|exact Hu1].
    apply (Hmono p Hp), resolves_not_unresolvable in Hr1.
    rewrite Hr1 in Hu2. discriminate. }
  destruct (filter_incl_length _ _ pkgs Himp) as [Hincl Hlen].
  rewrite !result_set_run, (reached_all _ _ H1), (reached_all _ _ H2).
  rewrite !exit_status_run_no_escape by assumption.
  unfold failures. rewrite !length_map.
  split; [|split; [exact Hlen|]].
  - intros m Hm. apply in_map_iff in Hm as [p [<- Hp]].
    apply in_map, Hincl, Hp.
  - destruct (filter (unresolvable env2) pkgs) as [|a l2];
      destruct (filter (unresolvable env1) pkgs) as [|b l1];
      cbn in *; lia.
Qed.

Lemma more_installed_fewer_reported_witness :
  incl (result_set (check_environment env_no_seaborn))
       (result_set (check_environment env_A_C_missing))
  /\ List.length (result_set (check_environment env_no_seaborn))
     <= List.length (result_set (check_environment env_A_C_missing))
  /\ (exit_status (check_environment env_no_seaborn)
      <= exit_status (check_environment env_A_C_missing))%Z.
Proof.
  apply (more_installed_fewer_reported packages env_A_C_missing env_no_seaborn).
  - apply installed_dichotomy.
  - apply installed_dichotomy.
  - intros p Hp. cbn in Hp.
    destruct Hp as [<-|[<-|[<-|[<-|[]]]]]; cbn; congruence.
Defined.

(** ** The store the module body starts from *)

(** X8.  The module body starts by emptying [bad], so what it does is the
    same from any store: it completes as the run from the initial store
    does, leaves the same result set whatever [bad] held before, and adds
    to the log the calls of that run. *)
Theorem module_body_resets_bad (pkgs : list string) (env : environment)
        (s : state) :
  fst (check pkgs env s) = fst (run pkgs env)
  /\ bad (snd (check pkgs env s)) = result_set (run pkgs env)
  /\ log (snd (check pkgs env s))
     = (log s ++ log (snd (run pkgs env)))%list.
Proof.
  rewrite run_eq. unfold run_spec, result_set.
  unfold check, seq, bad_assign. rewrite for_else_loop_body.
  unfold after_loop. cbn [bad log app].
  destruct (first_escape env pkgs) eqn:Hesc; cbn [fst snd bad log].
  - repeat split.
  - rewrite (reached_all _ _ Hesc), report_cases. cbn [bad log].
    destruct (failures env pkgs) as [|b bs]; cbn [fst snd bad log].
    + repeat split.
    + rewrite <- app_assoc. repeat split.
Qed.
